(** * kube-namespace-cni: per-namespace CNI configuration

    A shallow embedding of the plugin's decision logic: the argument
    parser [parseExtraArgs], the namespace resolver [getNetConf] and the
    delegators [delegateAdd] / [delegateDel].

    Go strings are byte sequences and are modelled by [string]; Go maps by
    stdpp's [gmap], a nil map by [None]. *)

From Stdlib Require Import Ascii String.
From stdpp Require Import base option list strings gmap fin_maps.

Set Warnings "-register-all".
Local Open Scope string_scope.
Local Open Scope list_scope.

(** ** Go values *)

(** A Go map with string keys.  The zero value of a map type is the nil
    map: it has no entries, length 0, and reads from it yield the zero
    value of the element type. *)
Abbreviation gomap V := (option (gmap string V)).

(** The dynamic values [encoding/json] stores in an [interface{}]:
    nil, bool, float64 (kept as its IEEE 754 bit pattern), string,
    []interface{} and map[string]interface{}. *)
Inductive iface : Type :=
  | INil
  | IBool (b : bool)
  | IFloat64 (bits : Z)
  | IString (s : string)
  | ISlice (l : list iface)
  | IMap (m : gomap iface).

(** [m[k]] with the comma-ok form: the element and whether it is present. *)
Definition index_ok {V} (m : gomap V) (k : string) : option V :=
  match m with
  | None => None
  | Some m => m !! k
  end.

(** [len(m)]. *)
Definition len {V} (m : gomap V) : nat :=
  match m with
  | None => 0
  | Some m => size m
  end.

(** ** strings.Split and strings.SplitN, for a one-byte separator *)

(** [cut sep s] looks for the first [sep] in [s]: the text before it, and
    the text after it when there is one. *)
Fixpoint cut (sep : ascii) (s : string) : string * option string :=
  match s with
  | EmptyString => (EmptyString, None)
  | String c r =>
      if Ascii.eqb c sep then (EmptyString, Some r)
      else let '(a, b) := cut sep r in (String c a, b)
  end.

(** [strings.SplitN(s, sep, 2)]: at most two substrings, the second one
    being the unsplit remainder. *)
Definition SplitN2 (s : string) (sep : ascii) : list string :=
  match cut sep s with
  | (a, None) => [a]
  | (a, Some b) => [a; b]
  end.

(** [strings.Split(s, sep)]: all substrings between separators; one more
    substring than there are separators. *)
Fixpoint Split (s : string) (sep : ascii) : list string :=
  match s with
  | EmptyString => [EmptyString]
  | String c r =>
      if Ascii.eqb c sep then EmptyString :: Split r sep
      else match Split r sep with
           | [] => [String c EmptyString]
           | h :: t => String c h :: t
           end
  end.

(** Does the byte [c] occur in [s]? *)
Fixpoint has_byte (c : ascii) (s : string) : bool :=
  match s with
  | EmptyString => false
  | String c' r => Ascii.eqb c' c || has_byte c r
  end.

(** [strings.Join(l, sep)], the inverse of [Split]. *)
Fixpoint Join (l : list string) (sep : ascii) : string :=
  match l with
  | [] => EmptyString
  | [s] => s
  | s :: t => s +:+ String sep (Join t sep)
  end.

(** ** The argument parser *)

(** The key and the value of a segment, split at its first ['=']. *)
Definition key_value (s : string) : option (string * string) :=
  match cut "=" s with
  | (k, Some v) => Some (k, v)
  | (_, None) => None
  end.

(** The value the last segment of [l] with key [k] gives, if any. *)
Fixpoint last_binding (k : string) (l : list string) : option string :=
  match l with
  | [] => None
  | s :: t =>
      match last_binding k t with
      | Some v => Some v
      | None =>
          match key_value s with
          | Some (k', v) => if decide (k' = k) then Some v else None
          | None => None
          end
      end
  end.

(** No segment of [l] has key [k]. *)
Definition unbound (k : string) (l : list string) : Prop :=
  ∀ s v, s ∈ l → s ≠ k +:+ "=" +:+ v.

(** One iteration of the loop body of [parseExtraArgs]. *)
Definition parseExtraArgs_step (parsedArgs : gmap string string) (s : string)
  : gmap string string :=
  match SplitN2 s "=" with
  | k :: v :: _ => <[k := v]> parsedArgs
  | _ => parsedArgs
  end.

Definition parseExtraArgs (args : string) : gmap string string :=
  foldl parseExtraArgs_step ∅ (Split args ";").


(** [m[k]] on a map built by [make]: the zero value [""] when [k] is absent. *)
Definition index (m : gmap string string) (k : string) : string :=
  default "" (m !! k).

(** [m[k]] on a map of interfaces: the nil interface when [k] is absent
    (or the map is nil). *)
Definition index_iface (m : gomap iface) (k : string) : iface :=
  default INil (index_ok m k).

(** The namespace and the pod name the resolver reads from the runtime
    arguments. *)
Definition namespace_of (args : string) : string :=
  index (parseExtraArgs args) "K8S_POD_NAMESPACE".

Definition pod_of (args : string) : string :=
  index (parseExtraArgs args) "K8S_POD_NAME".

(** ** Errors, panics and effects *)

(** The [error] values the plugin builds.  A formatted error keeps its
    format string and its operand. *)
Inductive error : Type :=
  | errors_New (text : string)
  | fmt_Errorf_q (format : string) (a : string)
  | fmt_Errorf_v (format : string) (a : error).

(** A failed single-value type assertion [x.(T)] panics with a
    [*runtime.TypeAssertionError]; it carries the value found and the
    name of the asserted type. *)
Inductive panic : Type :=
  | TypeAssertionError (found : iface) (asserted : string).

(** The calls the plugin makes into its collaborators, as the source
    writes them; what a collaborator then does is its own business.
    - [LogDebug fields msg] is the call [log.WithFields(fields).Debug(msg)]
      on the package logger [log].  Whether a record is written is decided
      by the logger from its level, and a written record also carries the
      fields [log] has at that moment; neither is part of the event.
    - [InvokeAdd plugin netconf] and [InvokeDel plugin netconf] are the
      calls [invoke.DelegateAdd(plugin, netconf)] and
      [invoke.DelegateDel(plugin, netconf)].  The library may answer with
      an error without having executed any plugin.
    - [Printed r] is the call [r.Print()]. *)
Inductive event (Result : Type) : Type :=
  | LogDebug (fields : gmap string iface) (msg : string)
  | InvokeAdd (plugin : string) (netconf : list Byte.byte)
  | InvokeDel (plugin : string) (netconf : list Byte.byte)
  | Printed (r : Result).
Arguments LogDebug {Result} fields msg.
Arguments InvokeAdd {Result} plugin netconf.
Arguments InvokeDel {Result} plugin netconf.
Arguments Printed {Result} r.

Definition is_LogDebug {Result} (e : event Result) : bool :=
  match e with
  | LogDebug _ _ => true
  | _ => false
  end.

(** A call either returns a value or panics. *)
Inductive outcome (A : Type) : Type :=
  | Returns (a : A)
  | Panics (p : panic).
Arguments Returns {A} a.
Arguments Panics {A} p.

(** Computations thread the chronological trace of events. *)
Definition M (Result A : Type) : Type :=
  list (event Result) → outcome A * list (event Result).

#[global] Instance M_ret {Result} : MRet (M Result) :=
  λ A a tr, (Returns a, tr).

#[global] Instance M_bind {Result} : MBind (M Result) :=
  λ A B k m tr,
    match m tr with
    | (Returns a, tr') => k a tr'
    | (Panics p, tr') => (Panics p, tr')
    end.

Definition emit {Result} (e : event Result) : M Result unit :=
  λ tr, (Returns tt, tr ++ [e]).

Definition throw {Result A} (p : panic) : M Result A :=
  λ tr, (Panics p, tr).

(** [x.(string)] *)
Definition assert_string {Result} (x : iface) : M Result string :=
  match x with
  | IString s => mret s
  | _ => throw (TypeAssertionError x "string")
  end.

(** ** The configuration document *)

Record config : Type := {
  Name : string;
  Type_ : string;
  LogLevel : string;
  Default : gomap iface;
  Namespaces : gomap (gomap iface)
}.

(** ** The namespace resolver *)

(** The [logrus.Fields] literal both debug calls of [getNetConf] pass. *)
Definition log_fields (namespace pod : string) (cfg : gomap iface)
  : gmap string iface :=
  <["config" := IMap cfg]>
    (<["pod" := IString pod]>
       (<["namespace" := IString namespace]> ∅)).

Section Resolver.
Context {Result : Type}.

Definition getNetConf (c : config) (args : string)
  : M Result (gomap iface * option error) :=
  let extraArgs := parseExtraArgs args in
  let namespace := index extraArgs "K8S_POD_NAMESPACE" in
  let pod := index extraArgs "K8S_POD_NAME" in
  if decide (namespace = "") then
    mret (None, Some (errors_New "Kubernetes namespace argument missing or empty."))
  else
    match index_ok (Namespaces c) namespace with
    | Some cfg =>
        emit (LogDebug (log_fields namespace pod cfg)
                "Using namespace specific config.") ;;
        mret (cfg, None)
    | None =>
        if decide (len (Default c) = 0) then
          mret (None,
               Some (fmt_Errorf_q
                       "Config for namespace %q not found, and no default given."
                       namespace))
        else
          emit (LogDebug (log_fields namespace pod (Default c))
                  "Per-namespace config not found. Using default.") ;;
          mret (Default c, None)
    end.
End Resolver.

(** ** The delegators *)

Section Delegator.
Context {Result : Type}.

(** [json.Marshal]: the bytes, or an error. *)
Variable json_Marshal : gomap iface → list Byte.byte * option error.
(** What the library answers to a call with plugin name [name] and the
    given bytes: [invoke.DelegateAdd] a result or an error,
    [invoke.DelegateDel] an error or nil.  An error may mean that no
    plugin was found or executed at all. *)
Variable plugin_add : string → list Byte.byte → Result + error.
Variable plugin_del : string → list Byte.byte → option error.
(** The error [result.Print()] returns, if any. *)
Variable print_err : Result → option error.

Definition invoke_DelegateAdd (name : string) (netconf : list Byte.byte)
  : M Result (Result + error) :=
  emit (InvokeAdd name netconf) ;; mret (plugin_add name netconf).

Definition invoke_DelegateDel (name : string) (netconf : list Byte.byte)
  : M Result (option error) :=
  emit (InvokeDel name netconf) ;; mret (plugin_del name netconf).

Definition Print (r : Result) : M Result (option error) :=
  emit (Printed r) ;; mret (print_err r).

Definition delegateAdd (netconf : gomap iface) : M Result (option error) :=
  let '(ncBytes, err) := json_Marshal netconf in
  match err with
  | Some err => mret (Some (fmt_Errorf_v "Failed to marshal config: %v" err))
  | None =>
      ty ← assert_string (index_iface netconf "type");
      r ← invoke_DelegateAdd ty ncBytes;
      match r with
      | inr err => mret (Some err)
      | inl result => Print result
      end
  end.

Definition delegateDel (netconf : gomap iface) : M Result (option error) :=
  let '(ncBytes, err) := json_Marshal netconf in
  match err with
  | Some err => mret (Some (fmt_Errorf_v "Failed to marshal config: %v" err))
  | None =>
      ty ← assert_string (index_iface netconf "type");
      invoke_DelegateDel ty ncBytes
  end.
End Delegator.

(** ** Formatting runtime arguments *)

(** The [key=value;key=value] text of a list of pairs, the format
    [parseExtraArgs] reads. *)
Definition format_args (l : list (string * string)) : string :=
  Join ((λ kv, kv.1 +:+ "=" +:+ kv.2) <$> l) ";".

(** The plugins a trace addresses: the plugin name and the bytes handed
    to each call of [invoke.DelegateAdd] or [invoke.DelegateDel], in
    order. *)
Definition invocations {Result} (tr : list (event Result))
  : list (string * list Byte.byte) :=
  omap (λ e, match e with
             | InvokeAdd name b | InvokeDel name b => Some (name, b)
             | _ => None
             end) tr.

Definition is_InvokeAdd {Result} (e : event Result) : bool :=
  match e with InvokeAdd _ _ => true | _ => false end.

Definition is_InvokeDel {Result} (e : event Result) : bool :=
  match e with InvokeDel _ _ => true | _ => false end.

Definition is_Printed {Result} (e : event Result) : bool :=
  match e with Printed _ => true | _ => false end.

(** ** The entry points *)

(** [skel.CmdArgs], what the harness hands to a lifecycle command. *)
Record CmdArgs : Type := {
  ContainerID : string;
  Netns : string;
  IfName : string;
  Args : string;
  Path : string;
  StdinData : list Byte.byte
}.

(** The calls a command makes, each with the fields [data] the package
    logger [log] carries at that moment: the calls [log.Error(msg)] and
    [log.Info(msg)], and the calls of the resolver and the delegators
    (a logger call among them is made on that same [log], so a record it
    writes inherits [data]).  As for [event], whether the logger writes a
    record for a call is decided by its level and is not part of the
    event. *)
Inductive cmd_event (Result : Type) : Type :=
  | LogError (data : gmap string iface) (msg : string)
  | LogInfo (data : gmap string iface) (msg : string)
  | Core (data : gmap string iface) (e : event Result).
Arguments LogError {Result} data msg.
Arguments LogInfo {Result} data msg.
Arguments Core {Result} data e.

(** The state of the process: the level of the logger behind the package
    variable [log], the fields [log] carries, and the events so far. *)
Record process (Level Result : Type) : Type := {
  log_Level : Level;
  log_Data : gmap string iface;
  events : list (cmd_event Result)
}.
Arguments log_Level {Level Result} p.
Arguments log_Data {Level Result} p.
Arguments events {Level Result} p.

Definition E (Level Result A : Type) : Type :=
  process Level Result → outcome A * process Level Result.

#[global] Instance E_ret {Level Result} : MRet (E Level Result) :=
  λ A a st, (Returns a, st).

#[global] Instance E_bind {Level Result} : MBind (E Level Result) :=
  λ A B k m st,
    match m st with
    | (Returns a, st') => k a st'
    | (Panics p, st') => (Panics p, st')
    end.

(** Run a computation of the resolver or the delegators inside a command:
    its calls follow those of the command so far, and are made while [log]
    carries the fields of the process. *)
Definition lift {Level Result A} (m : M Result A) : E Level Result A :=
  λ st, let '(o, evs) := m [] in
        (o, {| log_Level := log_Level st; log_Data := log_Data st;
               events := events st ++ (Core (log_Data st) <$> evs) |}).

(** The calls [log.Error(msg)] and [log.Info(msg)].  The call is made
    whatever the level is; the logger writes the record only if its level
    allows that severity. *)
Definition log_Error {Level Result} (msg : string) : E Level Result unit :=
  λ st, (Returns tt,
         {| log_Level := log_Level st; log_Data := log_Data st;
            events := events st ++ [LogError (log_Data st) msg] |}).

Definition log_Info {Level Result} (msg : string) : E Level Result unit :=
  λ st, (Returns tt,
         {| log_Level := log_Level st; log_Data := log_Data st;
            events := events st ++ [LogInfo (log_Data st) msg] |}).

(** [log.Logger.Level = lvl] *)
Definition set_Level {Level Result} (lvl : Level) : E Level Result unit :=
  λ st, (Returns tt,
         {| log_Level := lvl; log_Data := log_Data st; events := events st |}).

(** [log = log.WithFields(fields)]: the new entry carries the old fields
    and the given ones, the given ones winning. *)
Definition log_WithFields {Level Result} (fields : gmap string iface)
  : E Level Result unit :=
  λ st, (Returns tt,
         {| log_Level := log_Level st; log_Data := fields ∪ log_Data st;
            events := events st |}).

Section EntryPoints.
Context {Level Result : Type}.

(** [json.Unmarshal(data, config)] on a zero [config]: the document as
    filled in, and the error. *)
Variable json_Unmarshal : list Byte.byte → config * option error.
(** [logrus.ParseLevel] *)
Variable ParseLevel : string → Level * option error.
Variable json_Marshal : gomap iface → list Byte.byte * option error.
Variable plugin_add : string → list Byte.byte → Result + error.
Variable plugin_del : string → list Byte.byte → option error.
Variable print_err : Result → option error.

Definition setLogLevel (c : config) : E Level Result unit :=
  if decide (LogLevel c = "") then mret tt
  else
    let '(logLevel, err) := ParseLevel (LogLevel c) in
    match err with
    | Some _ => log_Error "Unknown log level. Using default: INFO"
    | None => set_Level logLevel
    end.

Definition cmdAdd (args : CmdArgs) : E Level Result (option error) :=
  let '(config, err) := json_Unmarshal (StdinData args) in
  match err with
  | Some err => mret (Some (fmt_Errorf_v "Failed to parse config: %v" err))
  | None =>
      setLogLevel config ;;
      log_WithFields {[ "container_id" := IString (ContainerID args) ]} ;;
      log_Info "Configuring pod networking." ;;
      r ← lift (getNetConf config (Args args));
      match r with
      | (_, Some err) => mret (Some err)
      | (delegatedConfig, None) =>
          lift (delegateAdd json_Marshal plugin_add print_err delegatedConfig)
      end
  end.

Definition cmdDel (args : CmdArgs) : E Level Result (option error) :=
  let '(config, err) := json_Unmarshal (StdinData args) in
  match err with
  | Some err => mret (Some (fmt_Errorf_v "Failed to parse config: %v" err))
  | None =>
      setLogLevel config ;;
      log_WithFields {[ "container_id" := IString (ContainerID args) ]} ;;
      log_Info "Removing pod networking." ;;
      r ← lift (getNetConf config (Args args));
      match r with
      | (_, Some err) => mret (Some err)
      | (delegatedConfig, None) =>
          lift (delegateDel json_Marshal plugin_del delegatedConfig)
      end
  end.
End EntryPoints.

(** The events of the resolver and the delegators among those of a
    command. *)
Definition core_events {Result} (evs : list (cmd_event Result))
  : list (event Result) :=
  omap (λ e, match e with Core _ e => Some e | _ => None end) evs.

(** The level of the logger after [setLogLevel], and the logger calls it
    makes, by the three cases of the level name: empty, recognized,
    unknown. *)
Definition level_after {Level} (ParseLevel : string → Level * option error)
    (c : config) (old : Level) : Level :=
  if decide (LogLevel c = "") then old
  else match ParseLevel (LogLevel c) with
       | (lvl, None) => lvl
       | (_, Some _) => old
       end.

Definition level_records {Level Result}
    (ParseLevel : string → Level * option error)
    (c : config) (data : gmap string iface) : list (cmd_event Result) :=
  if decide (LogLevel c = "") then []
  else match ParseLevel (LogLevel c) with
       | (_, None) => []
       | (_, Some _) => [LogError data "Unknown log level. Using default: INFO"]
       end.

(** The process once a command has set the level, attached the container
    id to [log] and made its opening info call with [msg]. *)
Definition after_opening {Level Result}
    (ParseLevel : string → Level * option error)
    (c : config) (cid msg : string) (st : process Level Result)
  : process Level Result :=
  let data := {[ "container_id" := IString cid ]} ∪ log_Data st in
  {| log_Level := level_after ParseLevel c (log_Level st);
     log_Data := data;
     events := events st ++ level_records ParseLevel c (log_Data st)
                         ++ [LogInfo data msg] |}.

(** The process with further calls of the resolver or the delegators. *)
Definition add_core {Level Result} (evs : list (event Result))
    (st : process Level Result) : process Level Result :=
  {| log_Level := log_Level st; log_Data := log_Data st;
     events := events st ++ (Core (log_Data st) <$> evs) |}.

(** ** Sample data *)

Definition bridge_conf : gomap iface :=
  Some (<["bridge" := IString "cni1"]> (<["type" := IString "bridge"]> ∅)).

Definition flannel_conf : gomap iface :=
  Some (<["type" := IString "flannel"]> ∅).

(** A document with an entry for ["isolated"], an empty entry for
    ["bare"], and a default. *)
Definition sample_doc : config :=
  {| Name := "kube"; Type_ := "kube-namespace-cni"; LogLevel := "";
     Default := flannel_conf;
     Namespaces := Some (<["bare" := Some ∅]> (<["isolated" := bridge_conf]> ∅)) |}.

(** A serializer that always succeeds, a plugin runner that always
    succeeds, and a printer that never fails, over results of type [unit]. *)
Definition sample_Marshal (netconf : gomap iface)
  : list Byte.byte * option error := ([], None).
Definition sample_add (name : string) (netconf : list Byte.byte)
  : unit + error := inl tt.
Definition sample_del (name : string) (netconf : list Byte.byte)
  : option error := None.
Definition sample_print (r : unit) : option error := None.

(** A serializer that always fails, and a plugin runner that always
    fails. *)
Definition sample_Marshal_fail (netconf : gomap iface)
  : list Byte.byte * option error :=
  ([], Some (errors_New "json: unsupported value")).
Definition sample_add_fail (name : string) (netconf : list Byte.byte)
  : unit + error := inr (errors_New "failed to find plugin").

(** A decoder that yields [sample_doc], one that fails, and a level
    parser over levels numbered as in logrus that knows ["debug"] only. *)
Definition sample_Unmarshal (data : list Byte.byte) : config * option error :=
  (sample_doc, None).
Definition sample_Unmarshal_fail (data : list Byte.byte)
  : config * option error :=
  ({| Name := ""; Type_ := ""; LogLevel := ""; Default := None;
      Namespaces := None |},
   Some (errors_New "unexpected end of JSON input")).
Definition sample_ParseLevel (lvl : string) : nat * option error :=
  if decide (lvl = "debug") then (5, None)
  else (0, Some (errors_New "not a valid logrus Level")).

Definition sample_CmdArgs (args : string) : CmdArgs :=
  {| ContainerID := "c0ffee"; Netns := "/proc/42/ns/net"; IfName := "eth0";
     Args := args; Path := "/opt/cni/bin"; StdinData := [] |}.

(** A process whose logger is at level 4 (info) and carries no field. *)
Definition sample_process : process nat unit :=
  {| log_Level := 4; log_Data := ∅; events := [] |}.

(** A decoder that yields [sample_doc] under another name and with an
    unknown level name. *)
Definition sample_Unmarshal_chatty (data : list Byte.byte)
  : config * option error :=
  ({| Name := "other"; Type_ := "kube-namespace-cni"; LogLevel := "chatty";
      Default := Default sample_doc; Namespaces := Namespaces sample_doc |},
   None).


(** A document whose entry for ["void"] is null. *)
Definition sample_doc_null : config :=
  {| Name := "kube"; Type_ := "kube-namespace-cni"; LogLevel := "";
     Default := flannel_conf;
     Namespaces := Some (<["void" := None]> ∅) |}.

(** The same document without a default. *)
Definition sample_doc_nodefault : config :=
  {| Name := "kube"; Type_ := "kube-namespace-cni"; LogLevel := "";
     Default := None;
     Namespaces := Namespaces sample_doc |}.


(** * Properties *)

(** ** Strings *)

Lemma cut_Some sep s a b :
  cut sep s = (a, Some b) ↔ s = a +:+ String sep b ∧ has_byte sep a = false.
Proof.
  revert a. induction s as [|c r IH]; intros a; simpl.
  - split; [done|]. intros [H _]. by destruct a.
  - destruct (Ascii.eqb_spec c sep) as [->|Hc].
    + split.
      * intros [= <- <-]. done.
      * intros [H Ha]. destruct a as [|c' a']; simpl in *.
        -- by inversion H.
        -- injection H as <- _. by rewrite Ascii.eqb_refl in Ha.
    + destruct (cut sep r) as [a' b'] eqn:Hcut. split.
      * intros [= <- ->]. destruct (proj1 (IH a') eq_refl) as [-> Ha'].
        simpl. split; [done|].
        rewrite Ha'. by destruct (Ascii.eqb_spec c sep).
      * intros [H Ha]. destruct a as [|c' a'']; simpl in *.
        -- by inversion H.
        -- injection H as <- ->.
           apply orb_false_iff in Ha as [_ Ha].
           assert (Heq : (a', b') = (a'', Some b)) by (by apply IH).
           by inversion Heq.
Qed.

Lemma cut_None sep s a :
  cut sep s = (a, None) ↔ a = s ∧ has_byte sep s = false.
Proof.
  revert a. induction s as [|c r IH]; intros a; simpl.
  - split; [intros [= <-] | intros [-> _]]; done.
  - destruct (Ascii.eqb_spec c sep) as [->|Hc].
    { split; [done|]. by intros [_ H]. }
    destruct (cut sep r) as [a' b'] eqn:Hcut. split.
    + intros [= <- ->]. by destruct (proj1 (IH a') eq_refl) as [-> Hr].
    + intros [-> Hr]. simpl in Hr.
      assert (Heq : (a', b') = (r, None)) by (by apply IH).
      by inversion Heq.
Qed.

Lemma key_value_Some s k v :
  key_value s = Some (k, v) ↔ s = k +:+ "=" +:+ v ∧ has_byte "=" k = false.
Proof.
  unfold key_value. change (k +:+ "=" +:+ v) with (k +:+ String "=" v).
  rewrite <- cut_Some.
  destruct (cut "=" s) as [a [b|]]; split; congruence.
Qed.

Lemma key_value_None s :
  key_value s = None ↔ has_byte "=" s = false.
Proof.
  unfold key_value. destruct (cut "=" s) as [a [b|]] eqn:Hcut.
  - apply cut_Some in Hcut as [-> Ha]. split; [done|].
    intros H. exfalso. clear Ha. induction a as [|c a IH]; simpl in *; [done|].
    apply orb_false_iff in H as [_ H]. auto.
  - apply cut_None in Hcut as [-> Hs]. done.
Qed.

Lemma Split_nonempty s sep : Split s sep ≠ [].
Proof.
  destruct s as [|c r]; simpl; [done|].
  destruct (Ascii.eqb c sep); [done|]. by destruct (Split r sep).
Qed.

(** [Split] cuts at every separator and nowhere else. *)
Lemma Join_Split s sep : Join (Split s sep) sep = s.
Proof.
  induction s as [|c r IH]; simpl; [done|].
  destruct (Ascii.eqb_spec c sep) as [->|Hc].
  - pose proof (Split_nonempty r sep).
    destruct (Split r sep) as [|h t] eqn:E; [done|]. simpl in *. by rewrite IH.
  - destruct (Split r sep) as [|h [|h' t]] eqn:E; simpl in *; by rewrite <- IH.
Qed.

Lemma Split_no_sep s sep :
  Forall (λ seg, has_byte sep seg = false) (Split s sep).
Proof.
  induction s as [|c r IH]; simpl.
  - by constructor.
  - destruct (Ascii.eqb_spec c sep) as [->|Hc].
    + by constructor.
    + destruct (Split r sep) as [|h t].
      * constructor; [|done]. simpl. by destruct (Ascii.eqb_spec c sep).
      * inversion IH; subst. constructor; [|done].
        simpl. by destruct (Ascii.eqb_spec c sep).
Qed.

(** ** The argument parser *)

Lemma parseExtraArgs_step_key_value m s :
  parseExtraArgs_step m s =
    match key_value s with
    | Some (k, v) => <[k := v]> m
    | None => m
    end.
Proof.
  unfold parseExtraArgs_step, SplitN2, key_value.
  by destruct (cut "=" s) as [a [b|]].
Qed.

Lemma lookup_parseExtraArgs_step m s k :
  parseExtraArgs_step m s !! k =
    match key_value s with
    | Some (k', v) => if decide (k' = k) then Some v else m !! k
    | None => m !! k
    end.
Proof.
  rewrite parseExtraArgs_step_key_value.
  destruct (key_value s) as [[k' v]|]; [|done].
  destruct (decide (k' = k)) as [->|Hne].
  - by rewrite lookup_insert_eq.
  - by rewrite lookup_insert_ne.
Qed.

Lemma lookup_foldl_parseExtraArgs_step l m k :
  foldl parseExtraArgs_step m l !! k =
    match last_binding k l with
    | Some v => Some v
    | None => m !! k
    end.
Proof.
  revert m. induction l as [|s t IH]; intros m; simpl; [done|].
  rewrite IH, lookup_parseExtraArgs_step.
  destruct (last_binding k t); [done|].
  destruct (key_value s) as [[k' v]|]; [|done].
  by destruct (decide (k' = k)).
Qed.

Lemma last_binding_None k l :
  has_byte "=" k = false →
  last_binding k l = None ↔ unbound k l.
Proof.
  intros Hk. unfold unbound. induction l as [|s t IH]; simpl.
  - split; [|done]. intros _ s v Hs. by apply elem_of_nil in Hs.
  - destruct (last_binding k t) as [w|].
    + split; [done|]. intros H. exfalso.
      assert (Some w = None); [|done].
      apply IH. intros s' v Hs'. apply H. by right.
    + destruct IH as [IH _]. specialize (IH eq_refl).
      destruct (key_value s) as [[k' v]|] eqn:Hs.
      * destruct (decide (k' = k)) as [->|Hne].
        -- split; [done|]. intros H. exfalso.
           apply key_value_Some in Hs as [-> _].
           apply (H (k +:+ "=" +:+ v) v); [by left | done].
        -- split; [|done]. intros _ s' v' [->|Hin]%elem_of_cons; [|by apply IH].
           intros Heq. apply Hne.
           assert (key_value (k +:+ "=" +:+ v') = Some (k, v'))
             by (by apply key_value_Some).
           congruence.
      * split; [|done]. intros _ s' v' [->|Hin]%elem_of_cons; [|by apply IH].
        intros Heq.
        assert (key_value (k +:+ "=" +:+ v') = Some (k, v'))
          by (by apply key_value_Some).
        congruence.
Qed.

Lemma last_binding_Some k l v :
  last_binding k l = Some v ↔
  ∃ pre post, l = pre ++ (k +:+ "=" +:+ v) :: post
              ∧ has_byte "=" k = false ∧ unbound k post.
Proof.
  split.
  - induction l as [|s t IH]; simpl; [done|].
    destruct (last_binding k t) as [w|] eqn:Ht.
    + intros [= ->]. destruct (IH eq_refl) as (pre & post & -> & Hk & Hpost).
      by exists (s :: pre), post.
    + destruct (key_value s) as [[k' v']|] eqn:Hs; [|done].
      destruct (decide (k' = k)) as [->|]; [|done]. intros [= ->].
      apply key_value_Some in Hs as [-> Hk].
      exists [], t. split; [done|]. split; [done|].
      by apply last_binding_None.
  - intros (pre & post & -> & Hk & Hpost).
    induction pre as [|x pre IH]; simpl.
    + rewrite (proj2 (last_binding_None k post Hk) Hpost).
      rewrite (proj2 (key_value_Some _ k v) (conj eq_refl Hk)).
      by rewrite decide_True.
    + by rewrite IH.
Qed.


(** ** The resolver *)

Section ResolverFacts.
Context {Result : Type}.
Implicit Types (c : config) (args N : string) (tr : list (event Result)).

Lemma index_absent_or_empty (m : gmap string string) (k : string) :
  index m k = "" ↔ m !! k = None ∨ m !! k = Some "".
Proof.
  unfold index. destruct (m !! k) as [v|]; simpl; split; intros H.
  - right. by subst.
  - destruct H as [H|H]; [done | by inversion H].
  - by left.
  - done.
Qed.

Lemma getNetConf_missing c args tr :
  namespace_of args = "" →
  getNetConf c args tr =
    (Returns (None, Some (errors_New "Kubernetes namespace argument missing or empty.")),
     tr).
Proof.
  unfold namespace_of, getNetConf. intros ->.
  by rewrite decide_True.
Qed.

Lemma getNetConf_entry c args cfg tr :
  namespace_of args ≠ "" →
  index_ok (Namespaces c) (namespace_of args) = Some cfg →
  getNetConf c args tr =
    (Returns (cfg, None),
     tr ++ [LogDebug (log_fields (namespace_of args) (pod_of args) cfg)
              "Using namespace specific config."]).
Proof.
  unfold namespace_of, pod_of, getNetConf. intros Hne Hcfg.
  rewrite decide_False by done. by rewrite Hcfg.
Qed.

Lemma getNetConf_default c args tr :
  namespace_of args ≠ "" →
  index_ok (Namespaces c) (namespace_of args) = None →
  len (Default c) ≠ 0 →
  getNetConf c args tr =
    (Returns (Default c, None),
     tr ++ [LogDebug (log_fields (namespace_of args) (pod_of args) (Default c))
              "Per-namespace config not found. Using default."]).
Proof.
  unfold namespace_of, pod_of, getNetConf. intros Hne Hcfg Hd.
  rewrite decide_False by done. rewrite Hcfg.
  by rewrite decide_False by done.
Qed.

Lemma getNetConf_noconfig c args tr :
  namespace_of args ≠ "" →
  index_ok (Namespaces c) (namespace_of args) = None →
  len (Default c) = 0 →
  getNetConf c args tr =
    (Returns (None,
              Some (fmt_Errorf_q
                      "Config for namespace %q not found, and no default given."
                      (namespace_of args))),
     tr).
Proof.
  unfold namespace_of, getNetConf. intros Hne Hcfg Hd.
  rewrite decide_False by done. rewrite Hcfg.
  by rewrite decide_True by done.
Qed.
End ResolverFacts.

Section ResolverClaims.
Context {Result : Type}.
Implicit Types (c : config) (args N : string) (tr : list (event Result)).

(** C1. When the namespaces mapping has an entry for the non-empty
    namespace [N] carried by the runtime arguments, [getNetConf] returns
    that entry and no error, whatever the default is. *)
Theorem C1_entry_takes_precedence c args N cfg tr :
  namespace_of args = N →
  N ≠ "" →
  index_ok (Namespaces c) N = Some cfg →
  (getNetConf c args tr).1 = Returns (cfg, None).
Proof.
  intros <- Hne Hcfg. by rewrite (getNetConf_entry c args cfg tr).
Qed.

(** C3. When the namespace key is absent from the runtime arguments or
    carries the empty value, [getNetConf] returns no configuration and
    the missing-namespace error, whatever the document holds; nothing is
    logged. *)
Theorem C3_missing_namespace c args tr :
  parseExtraArgs args !! "K8S_POD_NAMESPACE" = None
  ∨ parseExtraArgs args !! "K8S_POD_NAMESPACE" = Some "" →
  getNetConf c args tr =
    (Returns (None, Some (errors_New "Kubernetes namespace argument missing or empty.")),
     tr).
Proof.
  intros H. apply getNetConf_missing. unfold namespace_of.
  by apply index_absent_or_empty.
Qed.

(** C4. For a non-empty namespace [N] with no entry in the namespaces
    mapping, a default that is present and non-empty is returned
    unchanged, with no error. *)
Theorem C4_default_fallback c args N d tr :
  namespace_of args = N →
  N ≠ "" →
  index_ok (Namespaces c) N = None →
  Default c = Some d →
  d ≠ ∅ →
  (getNetConf c args tr).1 = Returns (Some d, None).
Proof.
  intros <- Hne Hcfg Hd Hnonempty.
  rewrite (getNetConf_default c args tr Hne Hcfg).
  - by rewrite Hd.
  - rewrite Hd. simpl. by intros ?%map_size_empty_inv.
Qed.

(** C5. For a non-empty namespace [N] with no entry in the namespaces
    mapping, when the default is nil or empty [getNetConf] returns no
    configuration and the error built from the not-found format and [N];
    nothing is logged. *)
Theorem C5_no_config_for_namespace c args N tr :
  namespace_of args = N →
  N ≠ "" →
  index_ok (Namespaces c) N = None →
  Default c = None ∨ Default c = Some ∅ →
  getNetConf c args tr =
    (Returns (None,
              Some (fmt_Errorf_q
                      "Config for namespace %q not found, and no default given."
                      N)),
     tr).
Proof.
  intros <- Hne Hcfg Hd.
  apply getNetConf_noconfig; [done..|].
  by destruct Hd as [-> | ->].
Qed.

(** C8. Two runtime-argument strings that give the same namespace value
    lead to the same returned configuration and the same error, however
    they differ elsewhere, in particular in the pod name. *)
Theorem C8_pod_name_is_diagnostic_only c args1 args2 tr1 tr2 :
  namespace_of args1 = namespace_of args2 →
  (getNetConf c args1 tr1).1 = (getNetConf c args2 tr2).1.
Proof.
  intros Hns. unfold getNetConf. fold (namespace_of args1) (namespace_of args2).
  rewrite Hns.
  destruct (decide (namespace_of args2 = "")); [done|].
  destruct (index_ok (Namespaces c) (namespace_of args2)); [done|].
  by destruct (decide (len (Default c) = 0)).
Qed.

(** C9. [getNetConf] always returns (it never panics), and what it
    returns and what it logs are fixed by the document and the argument
    string alone: the same result follows from every state of the
    outside, and the only calls it makes are debug calls on the logger. *)
Theorem C9_total_and_deterministic c args :
  ∃ (r : gomap iface * option error) (evs : list (event Result)),
    forallb is_LogDebug evs = true
    ∧ ∀ tr, getNetConf c args tr = (Returns r, tr ++ evs).
Proof.
  unfold getNetConf.
  destruct (decide (index (parseExtraArgs args) "K8S_POD_NAMESPACE" = "")).
  { eexists _, []. split; [done|]. intros tr. by rewrite app_nil_r. }
  destruct (index_ok (Namespaces c) _) as [cfg|].
  { eexists _, [_]. split; last (intros tr; reflexivity). done. }
  destruct (decide (len (Default c) = 0)).
  { eexists _, []. split; [done|]. intros tr. by rewrite app_nil_r. }
  eexists _, [_]. split; last (intros tr; reflexivity). done.
Qed.

End ResolverClaims.

Lemma C1_witness :
  (getNetConf sample_doc "K8S_POD_NAMESPACE=isolated;K8S_POD_NAME=web"
     (@nil (event unit))).1
  = Returns (bridge_conf, None).
Proof.
  apply (C1_entry_takes_precedence sample_doc _ "isolated").
  - vm_compute. reflexivity.
  - discriminate.
  - vm_compute. reflexivity.
Defined.

Lemma C3_witness :
  getNetConf sample_doc "K8S_POD_NAME=web;K8S_POD_NAMESPACE=" (@nil (event unit))
  = (Returns (None, Some (errors_New "Kubernetes namespace argument missing or empty.")),
     []).
Proof.
  apply (C3_missing_namespace sample_doc).
  right. vm_compute. reflexivity.
Defined.

Lemma C4_witness :
  (getNetConf sample_doc "K8S_POD_NAMESPACE=kube-system;K8S_POD_NAME=dns"
     (@nil (event unit))).1
  = Returns (flannel_conf, None).
Proof.
  apply (C4_default_fallback sample_doc _ "kube-system").
  - vm_compute. reflexivity.
  - discriminate.
  - vm_compute. reflexivity.
  - reflexivity.
  - intros H. apply (f_equal (λ m : gmap string iface, m !! "type")) in H.
    vm_compute in H. discriminate.
Defined.

Lemma C5_witness :
  getNetConf sample_doc_nodefault "K8S_POD_NAMESPACE=kube-system" (@nil (event unit))
  = (Returns (None,
              Some (fmt_Errorf_q
                      "Config for namespace %q not found, and no default given."
                      "kube-system")),
     []).
Proof.
  apply (C5_no_config_for_namespace sample_doc_nodefault).
  - vm_compute. reflexivity.
  - discriminate.
  - vm_compute. reflexivity.
  - left. reflexivity.
Defined.

Lemma C8_witness :
  (getNetConf sample_doc "K8S_POD_NAMESPACE=isolated;K8S_POD_NAME=web-1"
     (@nil (event unit))).1
  = (getNetConf sample_doc "K8S_POD_NAME=db-7;K8S_POD_NAMESPACE=isolated"
       (@nil (event unit))).1.
Proof.
  apply (C8_pod_name_is_diagnostic_only sample_doc).
  vm_compute. reflexivity.
Defined.



(** ** The argument parser *)

(** C2, as the code has it.  [parseExtraArgs] is total, and key [k] is
    bound to [v] in its result exactly when some segment reads [k=v] with
    no ['='] in [k] and no later segment has key [k]: a segment without
    ['='] (the empty segment, a bare key) changes nothing, a segment
    [k=] binds [k] to the empty value, and of several segments with one
    key the last one wins.  The sample string gives exactly the two
    bindings of its well-formed segments. *)
Theorem C2_parse_binds_last_segment_of_each_key :
  (∀ args k v,
     parseExtraArgs args !! k = Some v ↔
     ∃ pre post, Split args ";" = pre ++ (k +:+ "=" +:+ v) :: post
                 ∧ has_byte "=" k = false ∧ unbound k post)
  ∧ (∀ m s, has_byte "=" s = false → parseExtraArgs_step m s = m)
  ∧ parseExtraArgs "K8S_POD_NAMESPACE=test;AnotherArg=123;BadArg"
    = <["AnotherArg" := "123"]> (<["K8S_POD_NAMESPACE" := "test"]> ∅).
Proof.
  split; [|split].
  - intros args k v. unfold parseExtraArgs.
    rewrite lookup_foldl_parseExtraArgs_step, lookup_empty.
    rewrite <- last_binding_Some.
    by destruct (last_binding k (Split args ";")).
  - intros m s Hs. rewrite parseExtraArgs_step_key_value.
    by rewrite (proj2 (key_value_None s) Hs).
  - vm_compute. reflexivity.
Qed.

Lemma C2_witness :
  parseExtraArgs "a=1;b;a=2=3;" !! "a" = Some "2=3"
  ∧ parseExtraArgs_step ∅ "BadArg" = ∅.
Proof.
  destruct C2_parse_binds_last_segment_of_each_key as (Hbind & Hdrop & _).
  split.
  - apply Hbind. exists ["a=1"; "b"], [""].
    split; [vm_compute; reflexivity|]. split; [reflexivity|].
    intros s v [->|Hs]%elem_of_cons; [discriminate|]. by apply elem_of_nil in Hs.
  - apply Hdrop. reflexivity.
Defined.

(** C2, as stated, fails: the segment [K8S_POD_NAME=], a key with no
    value, is not dropped but binds the key to the empty string; and the
    well-formed segment [a=1] is absent from the result when a later
    segment has the same key. *)
Lemma C2_key_without_value_is_kept :
  parseExtraArgs "K8S_POD_NAME=" !! "K8S_POD_NAME" = Some ""
  ∧ parseExtraArgs "a=1;a=2" !! "a" ≠ Some "1".
Proof.
  split; vm_compute; [reflexivity | discriminate].
Qed.

(** ** The delegators *)

(** With a string ["type"] the library is called once for that name on the
    serialized configuration, and on ADD its result is printed. *)
Example delegateAdd_bridge :
  delegateAdd sample_Marshal sample_add sample_print bridge_conf []
  = (Returns None, [InvokeAdd "bridge" []; Printed tt]).
Proof. vm_compute. reflexivity. Qed.

Example delegateDel_bridge :
  delegateDel sample_Marshal sample_del bridge_conf (@nil (event unit))
  = (Returns None, [InvokeDel "bridge" []]).
Proof. vm_compute. reflexivity. Qed.

Section DelegatorClaims.
Context {Result : Type}.
Variable json_Marshal : gomap iface → list Byte.byte * option error.
Variable plugin_add : string → list Byte.byte → Result + error.
Variable plugin_del : string → list Byte.byte → option error.
Variable print_err : Result → option error.
Implicit Types (netconf : gomap iface) (tr : list (event Result)).

(** A serialization failure is returned as an error, before the type
    field is looked at. *)
Lemma delegate_marshal_error netconf ncBytes err tr :
  json_Marshal netconf = (ncBytes, Some err) →
  delegateAdd json_Marshal plugin_add print_err netconf tr
  = (Returns (Some (fmt_Errorf_v "Failed to marshal config: %v" err)), tr)
  ∧ delegateDel json_Marshal plugin_del netconf tr
    = (Returns (Some (fmt_Errorf_v "Failed to marshal config: %v" err)), tr).
Proof.
  intros Hm. unfold delegateAdd, delegateDel. by rewrite Hm.
Qed.

(** With a string type field, the library is called exactly once for the
    plugin it names, on
    the bytes the serializer gave for the configuration as resolved. *)
Lemma delegate_invokes netconf ncBytes ty tr :
  json_Marshal netconf = (ncBytes, None) →
  index_iface netconf "type" = IString ty →
  (delegateAdd json_Marshal plugin_add print_err netconf tr).2
  = tr ++ [InvokeAdd ty ncBytes]
       ++ match plugin_add ty ncBytes with
          | inl r => [Printed r]
          | inr _ => []
          end
  ∧ delegateDel json_Marshal plugin_del netconf tr
    = (Returns (plugin_del ty ncBytes), tr ++ [InvokeDel ty ncBytes]).
Proof.
  intros Hm Hty. unfold delegateAdd, delegateDel. rewrite Hm, Hty.
  split; [|done].
  cbv [assert_string invoke_DelegateAdd Print emit mbind mret M_bind M_ret].
  destruct (plugin_add ty ncBytes); simpl; [|done].
  by rewrite <- app_assoc.
Qed.

(** C6, at the code.  When the ["type"] field of the configuration is
    missing or is not a string and serialization succeeds, [delegateAdd]
    and [delegateDel] do not return an error: the unchecked type
    assertion panics.  No subordinate plugin has been run by then. *)
Theorem C6_missing_type_panics netconf tr :
  (∀ s, index_iface netconf "type" ≠ IString s) →
  (json_Marshal netconf).2 = None →
  delegateAdd json_Marshal plugin_add print_err netconf tr
  = (Panics (TypeAssertionError (index_iface netconf "type") "string"), tr)
  ∧ delegateDel json_Marshal plugin_del netconf tr
    = (Panics (TypeAssertionError (index_iface netconf "type") "string"), tr).
Proof.
  intros Hty Hm. unfold delegateAdd, delegateDel.
  destruct (json_Marshal netconf) as [ncBytes err]. simpl in Hm. subst err.
  destruct (index_iface netconf "type") as [| | |s| |] eqn:E;
    try (by split).
  by destruct (Hty s).
Qed.
End DelegatorClaims.

Lemma C6_witness :
  delegateAdd sample_Marshal sample_add sample_print (Some ∅) []
  = (Panics (TypeAssertionError INil "string"), [])
  ∧ delegateDel sample_Marshal sample_del (Some ∅) (@nil (event unit))
    = (Panics (TypeAssertionError INil "string"), []).
Proof.
  change INil with (index_iface (Some ∅) "type").
  apply (C6_missing_type_panics sample_Marshal sample_add sample_del sample_print
           (Some ∅) []).
  - intros s. vm_compute. discriminate.
  - reflexivity.
Defined.

(** * Further properties *)

(** ** Splitting and joining *)

Lemma has_byte_app c a b :
  has_byte c (a +:+ b) = has_byte c a || has_byte c b.
Proof.
  induction a as [|c' a IH]; simpl; [done|].
  by rewrite IH, orb_assoc.
Qed.

Lemma Split_app a b sep :
  Split (a +:+ String sep b) sep = Split a sep ++ Split b sep.
Proof.
  induction a as [|c r IH]; simpl.
  - by rewrite Ascii.eqb_refl.
  - destruct (Ascii.eqb c sep); [by rewrite IH|].
    rewrite IH. pose proof (Split_nonempty r sep).
    by destruct (Split r sep).
Qed.

Lemma Split_single s sep :
  has_byte sep s = false → Split s sep = [s].
Proof.
  induction s as [|c r IH]; simpl; [done|].
  intros [Hc Hr]%orb_false_iff. rewrite Hc. by rewrite IH.
Qed.

Lemma Split_Join l sep :
  l ≠ [] →
  Forall (λ seg, has_byte sep seg = false) l →
  Split (Join l sep) sep = l.
Proof.
  intros Hne Hall. induction Hall as [|s t Hs Ht IH]; [done|].
  destruct t as [|s' t'].
  - simpl. by apply Split_single.
  - change (Join (s :: s' :: t') sep)
      with (s +:+ String sep (Join (s' :: t') sep)).
    rewrite Split_app, Split_single by done.
    by rewrite IH.
Qed.

Lemma Split_keeps_absent c s sep :
  has_byte c s = false →
  Forall (λ seg, has_byte c seg = false) (Split s sep).
Proof.
  induction s as [|c' r IH]; simpl.
  - by constructor.
  - intros [Hc Hr]%orb_false_iff. specialize (IH Hr).
    destruct (Ascii.eqb c' sep); [by constructor|].
    destruct (Split r sep) as [|h t].
    + constructor; [|done]. simpl. by rewrite Hc.
    + inversion IH; subst. constructor; [|done]. simpl. by rewrite Hc.
Qed.

Lemma has_byte_Join c l sep :
  c ≠ sep →
  has_byte c (Join l sep) = existsb (has_byte c) l.
Proof.
  intros Hne. induction l as [|s t IH]; [done|].
  destruct t as [|s' t'].
  - simpl. by rewrite orb_false_r.
  - change (Join (s :: s' :: t') sep)
      with (s +:+ String sep (Join (s' :: t') sep)).
    rewrite has_byte_app. cbn [has_byte existsb]. rewrite IH.
    destruct (Ascii.eqb_spec sep c) as [->|_]; [done|]. done.
Qed.

(** ** The argument parser, as a whole *)

Lemma foldl_parseExtraArgs_step_union l m :
  foldl parseExtraArgs_step m l = foldl parseExtraArgs_step ∅ l ∪ m.
Proof.
  apply map_eq. intros k.
  rewrite lookup_union, !lookup_foldl_parseExtraArgs_step, lookup_empty.
  destruct (last_binding k l); [|by rewrite (left_id None _)].
  by destruct (m !! k).
Qed.

Lemma foldl_parseExtraArgs_step_list_to_map l :
  foldl parseExtraArgs_step ∅ l = list_to_map (reverse (omap key_value l)).
Proof.
  induction l as [|s t IH]; [done|]. cbn [foldl].
  rewrite foldl_parseExtraArgs_step_union, IH, parseExtraArgs_step_key_value.
  cbn [omap list_omap]. fold (omap key_value t).
  destruct (key_value s) as [[k v]|].
  - by rewrite reverse_cons, list_to_map_app.
  - by rewrite (right_id ∅ _).
Qed.

Lemma last_binding_is_Some k v s l :
  s ∈ l → key_value s = Some (k, v) → is_Some (last_binding k l).
Proof.
  intros Hin Hs. induction l as [|x t IH]; [by apply elem_of_nil in Hin|].
  simpl. apply elem_of_cons in Hin as [<-|Hin].
  - destruct (last_binding k t); [done|].
    rewrite Hs. by rewrite decide_True.
  - destruct (IH Hin) as [w ->]. done.
Qed.

Lemma parseExtraArgs_app a b :
  parseExtraArgs (a +:+ ";" +:+ b) = parseExtraArgs b ∪ parseExtraArgs a.
Proof.
  unfold parseExtraArgs. change (a +:+ ";" +:+ b) with (a +:+ String ";" b).
  rewrite Split_app, foldl_app. apply foldl_parseExtraArgs_step_union.
Qed.

Lemma parseExtraArgs_list_to_map args :
  parseExtraArgs args = list_to_map (reverse (omap key_value (Split args ";"))).
Proof. apply foldl_parseExtraArgs_step_list_to_map. Qed.

Lemma parseExtraArgs_single k v :
  has_byte "=" k = false →
  has_byte ";" k = false →
  has_byte ";" v = false →
  parseExtraArgs (k +:+ "=" +:+ v) = {[ k := v ]}.
Proof.
  intros Hk Hk' Hv. unfold parseExtraArgs.
  rewrite Split_single.
  - simpl. rewrite parseExtraArgs_step_key_value.
    by rewrite (proj2 (key_value_Some _ k v) (conj eq_refl Hk)).
  - change (k +:+ "=" +:+ v) with (k +:+ String "=" v).
    rewrite has_byte_app. simpl. by rewrite Hk', Hv.
Qed.

(** X1. Parsing two argument strings joined by [';'] gives the bindings
    of both, those of the second string winning on a key both bind. *)
Theorem X1_parse_concatenation a b :
  parseExtraArgs (a +:+ ";" +:+ b) = parseExtraArgs b ∪ parseExtraArgs a.
Proof. apply parseExtraArgs_app. Qed.

(** X2. Parsing inverts formatting: for pairs whose keys hold neither
    ['='] nor [';'] and whose values hold no [';'] (values may hold
    ['=']), the parse of their [k=v;k=v] text is the map of the pairs, the
    last pair of a repeated key winning. *)
Theorem X2_parse_inverts_format (l : list (string * string)) :
  Forall (λ kv, has_byte "=" kv.1 = false ∧ has_byte ";" kv.1 = false
                ∧ has_byte ";" kv.2 = false) l →
  parseExtraArgs (format_args l) = list_to_map (reverse l).
Proof.
  intros Hall. destruct (decide (l = [])) as [->|Hne]; [done|].
  rewrite parseExtraArgs_list_to_map. unfold format_args.
  rewrite Split_Join.
  - f_equal. f_equal. clear Hne.
    induction Hall as [|[k v] t (Hk & _ & _) _ IH]; [done|].
    cbn [fmap list_fmap omap list_omap]. simpl.
    rewrite (proj2 (key_value_Some _ k v) (conj eq_refl Hk)).
    f_equal. apply IH.
  - by destruct l.
  - apply Forall_fmap. eapply Forall_impl; [exact Hall|].
    intros [k v] (_ & Hk & Hv). simpl in *.
    change (k +:+ "=" +:+ v) with (k +:+ String "=" v).
    rewrite has_byte_app. simpl. by rewrite Hk, Hv.
Qed.

(** X3. Segment order does not matter when no key is repeated: two
    argument strings with the same segments in any order, the segments
    having distinct keys, parse to the same map. *)
Theorem X3_parse_order_insensitive a1 a2 :
  Split a1 ";" ≡ₚ Split a2 ";" →
  NoDup (omap key_value (Split a1 ";")).*1 →
  parseExtraArgs a1 = parseExtraArgs a2.
Proof.
  intros Hperm Hnd. rewrite !parseExtraArgs_list_to_map.
  apply list_to_map_proper.
  - by rewrite fmap_reverse, reverse_Permutation.
  - by rewrite !reverse_Permutation, Hperm.
Qed.

(** X4. No key of the parsed map holds ['='] or [';'], and no value
    holds [';']. *)
Theorem X4_parsed_keys_and_values args k v :
  parseExtraArgs args !! k = Some v →
  has_byte "=" k = false ∧ has_byte ";" k = false ∧ has_byte ";" v = false.
Proof.
  unfold parseExtraArgs.
  rewrite lookup_foldl_parseExtraArgs_step, lookup_empty.
  destruct (last_binding k (Split args ";")) as [w|] eqn:Hlast; [|done].
  intros [= ->]. apply last_binding_Some in Hlast as (pre & post & Hsplit & Hk & _).
  split; [done|].
  pose proof (Split_no_sep args ";") as Hall. rewrite Hsplit in Hall.
  apply Forall_app in Hall as [_ Hall]. apply Forall_cons in Hall as [Hseg _].
  change (k +:+ "=" +:+ v) with (k +:+ String "=" v) in Hseg.
  rewrite has_byte_app in Hseg. simpl in Hseg.
  by apply orb_false_iff in Hseg.
Qed.

(** X5. The parsed map is empty exactly when the argument string holds no
    ['='] at all: an empty or wholly malformed input is not an error. *)
Theorem X5_parse_empty_iff args :
  parseExtraArgs args = ∅ ↔ has_byte "=" args = false.
Proof.
  split.
  - intros Hempty. destruct (has_byte "=" args) eqn:Hhas; [exfalso|done].
    rewrite <- (Join_Split args ";"), has_byte_Join in Hhas by done.
    apply existsb_exists in Hhas as (s & Hin & Hs).
    destruct (key_value s) as [[k v]|] eqn:Hkv.
    + apply list_elem_of_In in Hin.
      destruct (last_binding_is_Some k v s _ Hin Hkv) as [w Hw].
      assert (parseExtraArgs args !! k = Some w) as Hlook.
      { unfold parseExtraArgs.
        by rewrite lookup_foldl_parseExtraArgs_step, Hw. }
      by rewrite Hempty, lookup_empty in Hlook.
    + apply key_value_None in Hkv. congruence.
  - intros Hno. rewrite parseExtraArgs_list_to_map.
    assert (omap key_value (Split args ";") = []) as ->; [|done].
    pose proof (Split_keeps_absent "=" args ";" Hno) as Hall.
    induction Hall as [|s t Hs _ IH]; [done|].
    cbn [omap list_omap]. by rewrite (proj2 (key_value_None s) Hs).
Qed.

Lemma X2_witness :
  parseExtraArgs (format_args [("a", "1"); ("b", "x=y"); ("a", "2")])
  = list_to_map (reverse [("a", "1"); ("b", "x=y"); ("a", "2")]).
Proof.
  apply X2_parse_inverts_format.
  repeat (constructor; [by repeat split|]). constructor.
Defined.

Lemma X3_witness :
  parseExtraArgs "K8S_POD_NAME=web;junk;K8S_POD_NAMESPACE=test"
  = parseExtraArgs "K8S_POD_NAMESPACE=test;K8S_POD_NAME=web;junk".
Proof.
  apply X3_parse_order_insensitive.
  - vm_compute Split.
    change ["K8S_POD_NAME=web"; "junk"; "K8S_POD_NAMESPACE=test"]
      with (["K8S_POD_NAME=web"; "junk"] ++ ["K8S_POD_NAMESPACE=test"]).
    change ["K8S_POD_NAMESPACE=test"; "K8S_POD_NAME=web"; "junk"]
      with (["K8S_POD_NAMESPACE=test"] ++ ["K8S_POD_NAME=web"; "junk"]).
    apply Permutation_app_comm.
  - vm_compute. apply NoDup_cons. split.
    + intros [H|H]%elem_of_cons; [discriminate | by apply elem_of_nil in H].
    + apply NoDup_singleton.
Defined.

Lemma X4_witness :
  has_byte "=" "b" = false ∧ has_byte ";" "b" = false
  ∧ has_byte ";" "x=y" = false.
Proof.
  apply (X4_parsed_keys_and_values "a=1;b=x=y").
  vm_compute. reflexivity.
Defined.

(** ** The resolver, further *)

Lemma getNetConf_result_by_namespace {Result} c args1 args2
    (tr1 tr2 : list (event Result)) :
  namespace_of args1 = namespace_of args2 →
  (getNetConf c args1 tr1).1 = (getNetConf c args2 tr2).1.
Proof.
  intros Hns. unfold getNetConf.
  fold (namespace_of args1) (namespace_of args2). rewrite Hns.
  destruct (decide (namespace_of args2 = "")); [done|].
  destruct (index_ok (Namespaces c) (namespace_of args2)); [done|].
  by destruct (decide (len (Default c) = 0)).
Qed.

Lemma namespace_of_last_segment args N :
  has_byte ";" N = false →
  namespace_of (args +:+ ";K8S_POD_NAMESPACE=" +:+ N) = N.
Proof.
  intros HN. unfold namespace_of, index.
  change (args +:+ ";K8S_POD_NAMESPACE=" +:+ N)
    with (args +:+ ";" +:+ ("K8S_POD_NAMESPACE" +:+ "=" +:+ N)).
  rewrite parseExtraArgs_app, parseExtraArgs_single by done.
  by rewrite (lookup_union_Some_l _ _ _ N) by apply lookup_singleton_eq.
Qed.

(** X6. A namespace segment appended to the argument string overrides
    every namespace segment before it: the resolver then answers as for
    that namespace alone. *)
Theorem X6_last_namespace_segment_wins {Result} c args N
    (tr : list (event Result)) :
  has_byte ";" N = false →
  namespace_of (args +:+ ";K8S_POD_NAMESPACE=" +:+ N) = N
  ∧ (getNetConf c (args +:+ ";K8S_POD_NAMESPACE=" +:+ N) tr).1
    = (getNetConf c ("K8S_POD_NAMESPACE=" +:+ N) tr).1.
Proof.
  intros HN. split; [by apply namespace_of_last_segment|].
  apply getNetConf_result_by_namespace.
  rewrite namespace_of_last_segment by done.
  unfold namespace_of, index.
  change ("K8S_POD_NAMESPACE=" +:+ N) with ("K8S_POD_NAMESPACE" +:+ "=" +:+ N).
  rewrite parseExtraArgs_single by done. by rewrite lookup_singleton_eq.
Qed.

Lemma X6_witness :
  namespace_of ("K8S_POD_NAMESPACE=isolated;K8S_POD_NAME=web"
                +:+ ";K8S_POD_NAMESPACE=" +:+ "kube-system") = "kube-system"
  ∧ (getNetConf sample_doc
       ("K8S_POD_NAMESPACE=isolated;K8S_POD_NAME=web"
        +:+ ";K8S_POD_NAMESPACE=" +:+ "kube-system") (@nil (event unit))).1
    = (getNetConf sample_doc ("K8S_POD_NAMESPACE=" +:+ "kube-system")
         (@nil (event unit))).1.
Proof.
  apply (X6_last_namespace_segment_wins sample_doc).
  reflexivity.
Defined.

(** X7. A configuration returned without error is one the document
    holds: the namespace read is not empty, and the configuration is the
    entry of that namespace, or, there being no such entry, the default,
    which is then not empty. *)
Theorem X7_returned_config_is_configured {Result} c args cfg
    (tr : list (event Result)) :
  (getNetConf c args tr).1 = Returns (cfg, None) →
  namespace_of args ≠ ""
  ∧ (index_ok (Namespaces c) (namespace_of args) = Some cfg
     ∨ (index_ok (Namespaces c) (namespace_of args) = None
        ∧ cfg = Default c ∧ len cfg ≠ 0)).
Proof.
  destruct (decide (namespace_of args = "")) as [He|Hne].
  { rewrite (getNetConf_missing c args tr He). discriminate. }
  destruct (index_ok (Namespaces c) (namespace_of args)) as [e|] eqn:Hent.
  { rewrite (getNetConf_entry c args e tr Hne Hent). intros [= ->].
    split; [done|]. by left. }
  destruct (decide (len (Default c) = 0)) as [Hd|Hd].
  { rewrite (getNetConf_noconfig c args tr Hne Hent Hd). discriminate. }
  rewrite (getNetConf_default c args tr Hne Hent Hd). intros [= <-].
  split; [done|]. by right.
Qed.

Lemma X7_witness :
  namespace_of "K8S_POD_NAMESPACE=kube-system" ≠ ""
  ∧ (index_ok (Namespaces sample_doc) (namespace_of "K8S_POD_NAMESPACE=kube-system")
     = Some flannel_conf
     ∨ (index_ok (Namespaces sample_doc)
          (namespace_of "K8S_POD_NAMESPACE=kube-system") = None
        ∧ flannel_conf = Default sample_doc ∧ len flannel_conf ≠ 0)).
Proof.
  apply (X7_returned_config_is_configured sample_doc _ _ (@nil (event unit))).
  vm_compute. reflexivity.
Defined.

(** X8. An error never comes with a configuration, and nothing is logged
    on failure: the error is the missing-namespace one, or the not-found
    one for the namespace read. *)
Theorem X8_error_excludes_config {Result} c args cfg e
    (tr tr' : list (event Result)) :
  getNetConf c args tr = (Returns (cfg, Some e), tr') →
  cfg = None ∧ tr' = tr
  ∧ (e = errors_New "Kubernetes namespace argument missing or empty."
     ∨ e = fmt_Errorf_q "Config for namespace %q not found, and no default given."
             (namespace_of args)).
Proof.
  destruct (decide (namespace_of args = "")) as [He|Hne].
  { rewrite (getNetConf_missing c args tr He). intros [= <- <- <-]. auto. }
  destruct (index_ok (Namespaces c) (namespace_of args)) as [e'|] eqn:Hent.
  { rewrite (getNetConf_entry c args e' tr Hne Hent). discriminate. }
  destruct (decide (len (Default c) = 0)) as [Hd|Hd].
  { rewrite (getNetConf_noconfig c args tr Hne Hent Hd). intros [= <- <- <-]. auto. }
  rewrite (getNetConf_default c args tr Hne Hent Hd). discriminate.
Qed.

Lemma X8_witness :
  (None : gomap iface) = None ∧ (@nil (event unit)) = []
  ∧ (fmt_Errorf_q "Config for namespace %q not found, and no default given."
       "kube-system"
     = errors_New "Kubernetes namespace argument missing or empty."
     ∨ fmt_Errorf_q "Config for namespace %q not found, and no default given."
         "kube-system"
       = fmt_Errorf_q "Config for namespace %q not found, and no default given."
           (namespace_of "K8S_POD_NAMESPACE=kube-system")).
Proof.
  apply (X8_error_excludes_config sample_doc_nodefault
           "K8S_POD_NAMESPACE=kube-system").
  vm_compute. reflexivity.
Defined.

(** X9. An entry that is present but null is returned as it is: the
    resolver answers with a nil configuration and a nil error, and does
    not fall back to the default. *)
Theorem X9_null_entry_is_returned {Result} c args N (tr : list (event Result)) :
  namespace_of args = N →
  N ≠ "" →
  index_ok (Namespaces c) N = Some None →
  (getNetConf c args tr).1 = Returns (None, None).
Proof.
  intros <- Hne Hent. by rewrite (getNetConf_entry c args None tr).
Qed.

Lemma X9_witness :
  (getNetConf sample_doc_null "K8S_POD_NAMESPACE=void" (@nil (event unit))).1
  = Returns (None, None).
Proof.
  apply (X9_null_entry_is_returned sample_doc_null _ "void").
  - vm_compute. reflexivity.
  - discriminate.
  - vm_compute. reflexivity.
Defined.

(** ** The delegators, further *)

Ltac run_delegate :=
  cbv [delegateAdd delegateDel assert_string invoke_DelegateAdd
       invoke_DelegateDel Print emit throw mbind mret M_bind M_ret].

Section DelegatorFacts.
Context {Result : Type}.
Variable json_Marshal : gomap iface → list Byte.byte * option error.
Variable plugin_add : string → list Byte.byte → Result + error.
Variable plugin_del : string → list Byte.byte → option error.
Variable print_err : Result → option error.
Implicit Types (netconf : gomap iface) (tr : list (event Result)).

Lemma delegateAdd_cases netconf tr :
  delegateAdd json_Marshal plugin_add print_err netconf tr =
    match json_Marshal netconf with
    | (_, Some err) =>
        (Returns (Some (fmt_Errorf_v "Failed to marshal config: %v" err)), tr)
    | (ncBytes, None) =>
        match index_iface netconf "type" with
        | IString ty =>
            match plugin_add ty ncBytes with
            | inl r => (Returns (print_err r),
                        tr ++ [InvokeAdd ty ncBytes; Printed r])
            | inr e => (Returns (Some e), tr ++ [InvokeAdd ty ncBytes])
            end
        | x => (Panics (TypeAssertionError x "string"), tr)
        end
    end.
Proof.
  run_delegate. destruct (json_Marshal netconf) as [ncBytes [err|]]; [done|].
  destruct (index_iface netconf "type") as [| | |ty| |]; try done.
  destruct (plugin_add ty ncBytes); [|done].
  by rewrite <- app_assoc.
Qed.

Lemma delegateDel_cases netconf tr :
  delegateDel json_Marshal plugin_del netconf tr =
    match json_Marshal netconf with
    | (_, Some err) =>
        (Returns (Some (fmt_Errorf_v "Failed to marshal config: %v" err)), tr)
    | (ncBytes, None) =>
        match index_iface netconf "type" with
        | IString ty => (Returns (plugin_del ty ncBytes),
                         tr ++ [InvokeDel ty ncBytes])
        | x => (Panics (TypeAssertionError x "string"), tr)
        end
    end.
Proof.
  run_delegate. destruct (json_Marshal netconf) as [ncBytes [err|]]; [done|].
  by destruct (index_iface netconf "type") as [| | |ty| |].
Qed.

(** X10. When serialization fails, both delegators return the error
    wrapped in the marshal message; no plugin is run and nothing is
    printed, whatever the type field holds. *)
Theorem X10_marshal_failure_is_returned netconf ncBytes err tr :
  json_Marshal netconf = (ncBytes, Some err) →
  delegateAdd json_Marshal plugin_add print_err netconf tr
  = (Returns (Some (fmt_Errorf_v "Failed to marshal config: %v" err)), tr)
  ∧ delegateDel json_Marshal plugin_del netconf tr
    = (Returns (Some (fmt_Errorf_v "Failed to marshal config: %v" err)), tr).
Proof.
  intros Hm. by rewrite delegateAdd_cases, delegateDel_cases, Hm.
Qed.

(** X11. Whatever the configuration, a delegator keeps the earlier trace
    and runs at most one plugin.  [delegateAdd] adds nothing, or one ADD
    run that failed, or one ADD run that succeeded followed by the print
    of its result; [delegateDel] adds nothing or one DEL run, and never
    prints. *)
Theorem X11_at_most_one_plugin_run netconf tr :
  (∃ evs, (delegateAdd json_Marshal plugin_add print_err netconf tr).2 = tr ++ evs
          ∧ (evs = []
             ∨ (∃ ty b e, evs = [InvokeAdd ty b] ∧ plugin_add ty b = inr e)
             ∨ (∃ ty b r, evs = [InvokeAdd ty b; Printed r]
                          ∧ plugin_add ty b = inl r)))
  ∧ (∃ evs, (delegateDel json_Marshal plugin_del netconf tr).2 = tr ++ evs
            ∧ (evs = [] ∨ ∃ ty b, evs = [InvokeDel ty b])).
Proof.
  rewrite delegateAdd_cases, delegateDel_cases.
  destruct (json_Marshal netconf) as [ncBytes [err|]].
  { split; exists []; rewrite app_nil_r; auto. }
  destruct (index_iface netconf "type") as [| | |ty| |];
    try (split; exists []; rewrite app_nil_r; by auto).
  split.
  - destruct (plugin_add ty ncBytes) as [r|e] eqn:Hp; eexists; (split; [done|]).
    + right. right. by exists ty, ncBytes, r.
    + right. left. by exists ty, ncBytes, e.
  - eexists. split; [done|]. right. by exists ty, ncBytes.
Qed.

Lemma delegate_invocations_agree netconf tr :
  invocations (delegateAdd json_Marshal plugin_add print_err netconf tr).2
  = invocations (delegateDel json_Marshal plugin_del netconf tr).2.
Proof.
  rewrite delegateAdd_cases, delegateDel_cases.
  destruct (json_Marshal netconf) as [ncBytes [err|]]; [done|].
  destruct (index_iface netconf "type") as [| | |ty| |]; try done.
  unfold invocations.
  destruct (plugin_add ty ncBytes); simpl; by rewrite !omap_app.
Qed.

(** X12. ADD and DEL of one configuration address the same plugin with
    the same bytes: the plugin runs the two delegators add to a trace
    agree in name and input (and both are absent when serialization or
    the type field fails). *)
Theorem X12_add_and_del_address_same_plugin netconf tr :
  invocations (delegateAdd json_Marshal plugin_add print_err netconf tr).2
  = invocations (delegateDel json_Marshal plugin_del netconf tr).2.
Proof. apply delegate_invocations_agree. Qed.

(** X13. With a serializable configuration whose type field is the
    string [ty], each delegator calls the library exactly once, handing it
    the name [ty] and the serialized bytes.  [delegateAdd] returns the
    library's error unchanged, or, given a result, what printing it
    returns; [delegateDel] returns the library's answer unchanged. *)
Theorem X13_delegation_outcome netconf ncBytes ty tr :
  json_Marshal netconf = (ncBytes, None) →
  index_iface netconf "type" = IString ty →
  ((delegateAdd json_Marshal plugin_add print_err netconf tr).1
   = Returns (match plugin_add ty ncBytes with
              | inl r => print_err r
              | inr e => Some e
              end)
   ∧ invocations (delegateAdd json_Marshal plugin_add print_err netconf tr).2
     = invocations tr ++ [(ty, ncBytes)])
  ∧ ((delegateDel json_Marshal plugin_del netconf tr).1
     = Returns (plugin_del ty ncBytes)
     ∧ invocations (delegateDel json_Marshal plugin_del netconf tr).2
       = invocations tr ++ [(ty, ncBytes)]).
Proof.
  intros Hm Hty. rewrite delegateAdd_cases, delegateDel_cases, Hm, Hty.
  unfold invocations.
  destruct (plugin_add ty ncBytes); cbn [fst snd]; by rewrite !omap_app.
Qed.
End DelegatorFacts.

Lemma X10_witness :
  delegateAdd sample_Marshal_fail sample_add sample_print bridge_conf []
  = (Returns (Some (fmt_Errorf_v "Failed to marshal config: %v"
                      (errors_New "json: unsupported value"))), [])
  ∧ delegateDel sample_Marshal_fail sample_del bridge_conf (@nil (event unit))
    = (Returns (Some (fmt_Errorf_v "Failed to marshal config: %v"
                        (errors_New "json: unsupported value"))), []).
Proof.
  apply (X10_marshal_failure_is_returned sample_Marshal_fail sample_add
           sample_del sample_print bridge_conf []).
  reflexivity.
Defined.

Lemma X13_witness :
  (delegateAdd sample_Marshal sample_add sample_print bridge_conf []).1
  = Returns None.
Proof.
  refine (proj1 (proj1
    (X13_delegation_outcome sample_Marshal sample_add sample_del sample_print
       bridge_conf [] "bridge" [] _ _))).
  - reflexivity.
  - vm_compute. reflexivity.
Defined.

(** ** The entry points *)

Lemma core_events_app {Result} (l1 l2 : list (cmd_event Result)) :
  core_events (l1 ++ l2) = core_events l1 ++ core_events l2.
Proof. apply omap_app. Qed.

Lemma core_events_Core {Result} data (evs : list (event Result)) :
  core_events (Core data <$> evs) = evs.
Proof. induction evs as [|e t IH]; [done|]. cbn. by f_equal. Qed.

Lemma core_events_level_records {Level Result}
    (ParseLevel : string → Level * option error) c data :
  core_events (level_records (Result:=Result) ParseLevel c data) = [].
Proof.
  unfold level_records. destruct (decide (LogLevel c = "")); [done|].
  by destruct (ParseLevel (LogLevel c)) as [lvl [e|]].
Qed.

Lemma getNetConf_returns {Result} c args (tr : list (event Result)) :
  ∃ r evs, getNetConf c args tr = (Returns r, tr ++ evs).
Proof.
  destruct (decide (namespace_of args = "")) as [He|Hne].
  { rewrite (getNetConf_missing c args tr He). eexists _, []. by rewrite app_nil_r. }
  destruct (index_ok (Namespaces c) (namespace_of args)) as [e|] eqn:Hent.
  { rewrite (getNetConf_entry c args e tr Hne Hent). by eexists _, _. }
  destruct (decide (len (Default c) = 0)) as [Hd|Hd].
  { rewrite (getNetConf_noconfig c args tr Hne Hent Hd).
    eexists _, []. by rewrite app_nil_r. }
  rewrite (getNetConf_default c args tr Hne Hent Hd). by eexists _, _.
Qed.

Section EntryPointFacts.
Context {Level Result : Type}.
Variable json_Unmarshal : list Byte.byte → config * option error.
Variable ParseLevel : string → Level * option error.
Variable json_Marshal : gomap iface → list Byte.byte * option error.
Variable plugin_add : string → list Byte.byte → Result + error.
Variable plugin_del : string → list Byte.byte → option error.
Variable print_err : Result → option error.
Implicit Types (a : CmdArgs) (st : process Level Result) (c : config).

Lemma setLogLevel_eq c st :
  setLogLevel ParseLevel c st =
    (Returns tt,
     {| log_Level := level_after ParseLevel c (log_Level st);
        log_Data := log_Data st;
        events := events st ++ level_records ParseLevel c (log_Data st) |}).
Proof.
  unfold setLogLevel, level_after, level_records. destruct st as [lvl data evs].
  destruct (decide (LogLevel c = "")); simpl.
  { by rewrite app_nil_r. }
  destruct (ParseLevel (LogLevel c)) as [lvl' [e|]]; cbv [log_Error set_Level]; simpl.
  - done.
  - by rewrite app_nil_r.
Qed.

Lemma cmdAdd_cases a st :
  cmdAdd json_Unmarshal ParseLevel json_Marshal plugin_add print_err a st =
    match json_Unmarshal (StdinData a) with
    | (_, Some err) =>
        (Returns (Some (fmt_Errorf_v "Failed to parse config: %v" err)), st)
    | (c, None) =>
        let st1 := after_opening ParseLevel c (ContainerID a)
                     "Configuring pod networking." st in
        match getNetConf c (Args a) [] with
        | (Returns (_, Some e), evs) => (Returns (Some e), add_core evs st1)
        | (Returns (cfg, None), evs) =>
            let '(o, evs2) :=
              delegateAdd json_Marshal plugin_add print_err cfg [] in
            (o, add_core evs2 (add_core evs st1))
        | (Panics p, evs) => (Panics p, add_core evs st1)
        end
    end.
Proof.
  unfold cmdAdd. destruct (json_Unmarshal (StdinData a)) as [c [err|]]; [done|].
  cbv [mbind E_bind]. rewrite setLogLevel_eq.
  cbv [log_WithFields log_Info lift after_opening add_core]. simpl.
  rewrite <- app_assoc.
  by destruct (getNetConf c (Args a) []) as [[[cfg [e|]]|p] evs].
Qed.

Lemma cmdDel_cases a st :
  cmdDel json_Unmarshal ParseLevel json_Marshal plugin_del a st =
    match json_Unmarshal (StdinData a) with
    | (_, Some err) =>
        (Returns (Some (fmt_Errorf_v "Failed to parse config: %v" err)), st)
    | (c, None) =>
        let st1 := after_opening ParseLevel c (ContainerID a)
                     "Removing pod networking." st in
        match getNetConf c (Args a) [] with
        | (Returns (_, Some e), evs) => (Returns (Some e), add_core evs st1)
        | (Returns (cfg, None), evs) =>
            let '(o, evs2) := delegateDel json_Marshal plugin_del cfg [] in
            (o, add_core evs2 (add_core evs st1))
        | (Panics p, evs) => (Panics p, add_core evs st1)
        end
    end.
Proof.
  unfold cmdDel. destruct (json_Unmarshal (StdinData a)) as [c [err|]]; [done|].
  cbv [mbind E_bind]. rewrite setLogLevel_eq.
  cbv [log_WithFields log_Info lift after_opening add_core]. simpl.
  rewrite <- app_assoc.
  by destruct (getNetConf c (Args a) []) as [[[cfg [e|]]|p] evs].
Qed.
End EntryPointFacts.

Lemma getNetConf_error_silent {Result} c args cfg e
    (tr tr' : list (event Result)) :
  getNetConf c args tr = (Returns (cfg, Some e), tr') → cfg = None ∧ tr' = tr.
Proof.
  destruct (decide (namespace_of args = "")) as [He|Hne].
  { rewrite (getNetConf_missing c args tr He). by intros [= <- <- <-]. }
  destruct (index_ok (Namespaces c) (namespace_of args)) as [e'|] eqn:Hent.
  { rewrite (getNetConf_entry c args e' tr Hne Hent). discriminate. }
  destruct (decide (len (Default c) = 0)) as [Hd|Hd].
  { rewrite (getNetConf_noconfig c args tr Hne Hent Hd). by intros [= <- <- <-]. }
  rewrite (getNetConf_default c args tr Hne Hent Hd). discriminate.
Qed.

Lemma core_events_after_opening {Level Result}
    (ParseLevel : string → Level * option error) c cid msg
    (st : process Level Result) :
  core_events (events (after_opening ParseLevel c cid msg st))
  = core_events (events st).
Proof.
  unfold after_opening. cbn [events].
  rewrite !core_events_app, core_events_level_records. cbn.
  by rewrite app_nil_r.
Qed.

Lemma core_events_add_core {Level Result} evs (st : process Level Result) :
  core_events (events (add_core evs st)) = core_events (events st) ++ evs.
Proof.
  unfold add_core. cbn [events].
  by rewrite core_events_app, core_events_Core.
Qed.

Lemma getNetConf_invocations {Result} c args (tr : list (event Result)) :
  invocations (getNetConf c args tr).2 = invocations tr.
Proof.
  destruct (decide (namespace_of args = "")) as [He|Hne].
  { by rewrite (getNetConf_missing c args tr He). }
  destruct (index_ok (Namespaces c) (namespace_of args)) as [e|] eqn:Hent.
  { rewrite (getNetConf_entry c args e tr Hne Hent). unfold invocations.
    cbn [snd]. by rewrite omap_app, app_nil_r. }
  destruct (decide (len (Default c) = 0)) as [Hd|Hd].
  { by rewrite (getNetConf_noconfig c args tr Hne Hent Hd). }
  rewrite (getNetConf_default c args tr Hne Hent Hd). unfold invocations.
  cbn [snd]. by rewrite omap_app, app_nil_r.
Qed.

Section EntryPointClaims.
Context {Level Result : Type}.
Variable json_Unmarshal : list Byte.byte → config * option error.
Variable ParseLevel : string → Level * option error.
Variable json_Marshal : gomap iface → list Byte.byte * option error.
Variable plugin_add : string → list Byte.byte → Result + error.
Variable plugin_del : string → list Byte.byte → option error.
Variable print_err : Result → option error.
Implicit Types (a : CmdArgs) (st : process Level Result) (c : config).

(** X14. When the document on stdin does not decode, both commands
    return the error wrapped in the parse message and leave the process
    untouched: no level is set, nothing is logged, no plugin is run. *)
Theorem X14_undecodable_document a st c err :
  json_Unmarshal (StdinData a) = (c, Some err) →
  cmdAdd json_Unmarshal ParseLevel json_Marshal plugin_add print_err a st
  = (Returns (Some (fmt_Errorf_v "Failed to parse config: %v" err)), st)
  ∧ cmdDel (Result:=Result) json_Unmarshal ParseLevel json_Marshal
        plugin_del a st
    = (Returns (Some (fmt_Errorf_v "Failed to parse config: %v" err)), st).
Proof.
  intros Hj. by rewrite cmdAdd_cases, cmdDel_cases, Hj.
Qed.

(** X15. When the resolver fails, both commands return the resolver's
    error unchanged, and nothing of the resolver or the delegators has
    happened: no plugin is run. *)
Theorem X15_resolution_failure_stops_command a st c cfg e :
  json_Unmarshal (StdinData a) = (c, None) →
  (getNetConf c (Args a) (@nil (event Result))).1 = Returns (cfg, Some e) →
  ((cmdAdd json_Unmarshal ParseLevel json_Marshal
        plugin_add print_err a st).1 = Returns (Some e)
   ∧ core_events (events (cmdAdd json_Unmarshal ParseLevel json_Marshal
         plugin_add print_err a st).2) = core_events (events st))
  ∧ ((cmdDel (Result:=Result) json_Unmarshal ParseLevel json_Marshal
        plugin_del a st).1 = Returns (Some e)
     ∧ core_events (events (cmdDel (Result:=Result) json_Unmarshal ParseLevel json_Marshal
           plugin_del a st).2) = core_events (events st)).
Proof.
  intros Hj Hres. rewrite cmdAdd_cases, cmdDel_cases, Hj. cbn zeta.
  destruct (getNetConf c (Args a) []) as [o evs] eqn:Hg.
  simpl in Hres. subst o.
  destruct (getNetConf_error_silent _ _ _ _ _ _ Hg) as [_ ->].
  cbn [fst snd].
  by rewrite !core_events_add_core, !core_events_after_opening, app_nil_r.
Qed.

(** X16. When the document decodes and the resolver returns a
    configuration, a command ends as the delegator does on that
    configuration, returning or panicking alike, and the plugin it
    addresses is the one the delegator addresses for that configuration,
    with the same bytes; the resolver addresses none. *)
Theorem X16_command_is_resolve_then_delegate a st c cfg :
  json_Unmarshal (StdinData a) = (c, None) →
  (getNetConf c (Args a) (@nil (event Result))).1 = Returns (cfg, None) →
  ((cmdAdd json_Unmarshal ParseLevel json_Marshal plugin_add print_err a st).1
   = (delegateAdd json_Marshal plugin_add print_err cfg []).1
   ∧ invocations
       (core_events
          (events (cmdAdd json_Unmarshal ParseLevel json_Marshal plugin_add
                     print_err a st).2))
     = invocations (core_events (events st))
       ++ invocations (delegateAdd json_Marshal plugin_add print_err cfg []).2)
  ∧ ((cmdDel json_Unmarshal ParseLevel json_Marshal plugin_del a st).1
     = (delegateDel (Result:=Result) json_Marshal plugin_del cfg []).1
     ∧ invocations
         (core_events
            (events (cmdDel json_Unmarshal ParseLevel json_Marshal plugin_del
                       a st).2))
       = invocations (core_events (events st))
         ++ invocations
              (delegateDel (Result:=Result) json_Marshal plugin_del cfg []).2).
Proof.
  intros Hj Hg. rewrite cmdAdd_cases, cmdDel_cases, Hj. cbn zeta.
  pose proof (getNetConf_invocations c (Args a) (@nil (event Result))) as Hinv.
  destruct (getNetConf c (Args a) []) as [o evs]. simpl in Hg, Hinv. subst o.
  destruct (delegateAdd json_Marshal plugin_add print_err cfg []) as [o1 evs1].
  destruct (delegateDel json_Marshal plugin_del cfg []) as [o2 evs2].
  cbn [fst snd].
  rewrite !core_events_add_core, !core_events_after_opening.
  unfold invocations in *. rewrite !omap_app, Hinv. by rewrite !app_nil_r.
Qed.

(** X18. Once the document has decoded, a command leaves the package
    logger carrying the container id on top of its earlier fields, whatever
    happens later.  The logger's level is the parsed one for a recognized
    level name, and is unchanged for an empty name or for an unknown
    one. *)
Theorem X18_logger_after_command a st c :
  json_Unmarshal (StdinData a) = (c, None) →
  log_Data (cmdAdd json_Unmarshal ParseLevel json_Marshal
              plugin_add print_err a st).2
  = {[ "container_id" := IString (ContainerID a) ]} ∪ log_Data st
  ∧ (LogLevel c = "" →
     log_Level (cmdAdd json_Unmarshal ParseLevel json_Marshal
                  plugin_add print_err a st).2 = log_Level st)
  ∧ (∀ lvl, LogLevel c ≠ "" → ParseLevel (LogLevel c) = (lvl, None) →
            log_Level (cmdAdd json_Unmarshal ParseLevel json_Marshal
                         plugin_add print_err a st).2 = lvl)
  ∧ (∀ lvl e, LogLevel c ≠ "" → ParseLevel (LogLevel c) = (lvl, Some e) →
              log_Level (cmdAdd json_Unmarshal ParseLevel json_Marshal
                           plugin_add print_err a st).2 = log_Level st).
Proof.
  intros Hj. rewrite cmdAdd_cases, Hj. cbn zeta.
  set (st1 := after_opening ParseLevel c (ContainerID a)
                "Configuring pod networking." st).
  assert (∃ evs, (match getNetConf c (Args a) [] with
                  | (Returns (_, Some e), evs) => (Returns (Some e), add_core evs st1)
                  | (Returns (cfg, None), evs) =>
                      let '(o, evs2) :=
                        delegateAdd json_Marshal plugin_add print_err cfg [] in
                      (o, add_core evs2 (add_core evs st1))
                  | (Panics p, evs) => (Panics p, add_core evs st1)
                  end).2 = add_core evs st1) as [evs ->].
  { destruct (getNetConf c (Args a) []) as [[[cfg [e|]]|p] evs].
    - by exists evs.
    - destruct (delegateAdd json_Marshal plugin_add print_err cfg [])
        as [o evs2].
      exists (evs ++ evs2).
      unfold add_core. cbn [snd events log_Level log_Data].
      f_equal. by rewrite fmap_app, app_assoc.
    - by exists evs. }
  unfold add_core, st1, after_opening, level_after. cbn.
  split; [done|]. split; [|split].
  - intros He. by rewrite decide_True.
  - intros lvl Hne Hp. by rewrite decide_False, Hp.
  - intros lvl e Hne Hp. by rewrite decide_False, Hp.
Qed.

(** X19. ADD and DEL of one invocation address the same plugin with the
    same bytes, or both run none: the plugin runs the two commands add
    agree in name and input. *)
Theorem X19_commands_address_same_plugin a st :
  invocations (core_events (events (cmdAdd json_Unmarshal ParseLevel json_Marshal
        plugin_add print_err a st).2))
 
        = invocations (core_events (events (cmdDel (Result:=Result) json_Unmarshal ParseLevel json_Marshal
        plugin_del a st).2)).
Proof.
  rewrite cmdAdd_cases, cmdDel_cases.
  destruct (json_Unmarshal (StdinData a)) as [c [err|]]; [done|]. cbn zeta.
  destruct (getNetConf c (Args a) []) as [[[cfg [e|]]|p] evs]; cbn [snd].
  - by rewrite !core_events_add_core, !core_events_after_opening.
  - pose proof (delegate_invocations_agree json_Marshal plugin_add plugin_del
                  print_err cfg []) as Hagree.
    destruct (delegateAdd json_Marshal plugin_add print_err cfg []) as [o1 evs1].
    destruct (delegateDel (Result:=Result) json_Marshal plugin_del cfg []) as [o2 evs2]. cbn [snd] in *.
    rewrite !core_events_add_core, !core_events_after_opening.
    unfold invocations in *. by rewrite !omap_app, Hagree.
  - by rewrite !core_events_add_core, !core_events_after_opening.
Qed.
End EntryPointClaims.

Lemma getNetConf_ext {Result} c1 c2 args (tr : list (event Result)) :
  Default c1 = Default c2 →
  Namespaces c1 = Namespaces c2 →
  getNetConf c1 args tr = getNetConf c2 args tr.
Proof. intros Hd Hn. unfold getNetConf. by rewrite Hd, Hn. Qed.

(** X17. The outcome of a command and the plugin it addresses depend on
    the decoded document through its default and its namespaces only: two
    documents that differ in name, type or log level (recognized or not)
    give the same return value, and the same plugin name and bytes handed
    to the library. *)
Theorem X17_log_level_is_best_effort {Level Result}
    (Unmarshal1 Unmarshal2 : list Byte.byte → config * option error)
    (ParseLevel1 ParseLevel2 : string → Level * option error)
    (json_Marshal : gomap iface → list Byte.byte * option error)
    (plugin_add : string → list Byte.byte → Result + error)
    (plugin_del : string → list Byte.byte → option error)
    (print_err : Result → option error)
    (a : CmdArgs) (st : process Level Result) (c1 c2 : config) :
  Unmarshal1 (StdinData a) = (c1, None) →
  Unmarshal2 (StdinData a) = (c2, None) →
  Default c1 = Default c2 →
  Namespaces c1 = Namespaces c2 →
  ((cmdAdd Unmarshal1 ParseLevel1 json_Marshal plugin_add print_err a st).1
   = (cmdAdd Unmarshal2 ParseLevel2 json_Marshal plugin_add print_err a st).1
   ∧ invocations
       (core_events
          (events (cmdAdd Unmarshal1 ParseLevel1 json_Marshal plugin_add
                     print_err a st).2))
     = invocations
         (core_events
            (events (cmdAdd Unmarshal2 ParseLevel2 json_Marshal plugin_add
                       print_err a st).2)))
  ∧ ((cmdDel Unmarshal1 ParseLevel1 json_Marshal plugin_del a st).1
     = (cmdDel Unmarshal2 ParseLevel2 json_Marshal plugin_del a st).1
     ∧ invocations
         (core_events
            (events (cmdDel Unmarshal1 ParseLevel1 json_Marshal plugin_del
                       a st).2))
       = invocations
           (core_events
              (events (cmdDel Unmarshal2 ParseLevel2 json_Marshal plugin_del
                         a st).2))).
Proof.
  intros H1 H2 Hd Hn.
  rewrite !cmdAdd_cases, !cmdDel_cases, H1, H2. cbn zeta.
  rewrite (getNetConf_ext c1 c2 _ _ Hd Hn).
  destruct (getNetConf c2 (Args a) []) as [[[cfg [e|]]|p] evs]; cbn [fst snd].
  - by rewrite !core_events_add_core, !core_events_after_opening.
  - destruct (delegateAdd json_Marshal plugin_add print_err cfg []) as [o1 evs1].
    destruct (delegateDel json_Marshal plugin_del cfg []) as [o2 evs2].
    cbn [fst snd].
    by rewrite !core_events_add_core, !core_events_after_opening.
  - by rewrite !core_events_add_core, !core_events_after_opening.
Qed.

Lemma X14_witness :
  cmdAdd sample_Unmarshal_fail sample_ParseLevel sample_Marshal sample_add
    sample_print (sample_CmdArgs "K8S_POD_NAMESPACE=isolated") sample_process
  = (Returns (Some (fmt_Errorf_v "Failed to parse config: %v"
                      (errors_New "unexpected end of JSON input"))),
     sample_process)
  ∧ cmdDel sample_Unmarshal_fail sample_ParseLevel sample_Marshal sample_del
      (sample_CmdArgs "K8S_POD_NAMESPACE=isolated") sample_process
    = (Returns (Some (fmt_Errorf_v "Failed to parse config: %v"
                        (errors_New "unexpected end of JSON input"))),
       sample_process).
Proof.
  eapply (X14_undecodable_document sample_Unmarshal_fail sample_ParseLevel
            sample_Marshal sample_add sample_del sample_print).
  reflexivity.
Defined.

Lemma X15_witness :
  (cmdAdd sample_Unmarshal sample_ParseLevel sample_Marshal sample_add
     sample_print (sample_CmdArgs "K8S_POD_NAME=web") sample_process).1
  = Returns (Some (errors_New "Kubernetes namespace argument missing or empty.")).
Proof.
  refine (proj1 (proj1
    (X15_resolution_failure_stops_command sample_Unmarshal sample_ParseLevel
       sample_Marshal sample_add sample_del sample_print
       (sample_CmdArgs "K8S_POD_NAME=web") sample_process sample_doc None _ _ _))).
  - reflexivity.
  - vm_compute. reflexivity.
Defined.

Lemma X16_witness :
  (cmdAdd sample_Unmarshal sample_ParseLevel sample_Marshal sample_add
     sample_print (sample_CmdArgs "K8S_POD_NAMESPACE=isolated") sample_process).1
  = (delegateAdd sample_Marshal sample_add sample_print bridge_conf []).1.
Proof.
  refine (proj1 (proj1
    (X16_command_is_resolve_then_delegate sample_Unmarshal sample_ParseLevel
       sample_Marshal sample_add sample_del sample_print
       (sample_CmdArgs "K8S_POD_NAMESPACE=isolated") sample_process sample_doc
       bridge_conf _ _))).
  - reflexivity.
  - vm_compute. reflexivity.
Defined.

Lemma X17_witness :
  (cmdAdd sample_Unmarshal sample_ParseLevel sample_Marshal sample_add
     sample_print (sample_CmdArgs "K8S_POD_NAMESPACE=isolated") sample_process).1
  = (cmdAdd sample_Unmarshal_chatty sample_ParseLevel sample_Marshal sample_add
       sample_print (sample_CmdArgs "K8S_POD_NAMESPACE=isolated")
       sample_process).1.
Proof.
  refine (proj1 (proj1
    (X17_log_level_is_best_effort sample_Unmarshal sample_Unmarshal_chatty
       sample_ParseLevel sample_ParseLevel sample_Marshal sample_add
       sample_del sample_print
       (sample_CmdArgs "K8S_POD_NAMESPACE=isolated") sample_process
       _ _ _ _ _ _))); reflexivity.
Defined.

Lemma X18_witness :
  log_Level (cmdAdd sample_Unmarshal_chatty sample_ParseLevel sample_Marshal
               sample_add sample_print
               (sample_CmdArgs "K8S_POD_NAMESPACE=isolated") sample_process).2
  = 4.
Proof.
  refine (proj2 (proj2 (proj2
    (X18_logger_after_command sample_Unmarshal_chatty sample_ParseLevel
       sample_Marshal sample_add sample_print
       (sample_CmdArgs "K8S_POD_NAMESPACE=isolated") sample_process
       _ eq_refl))) 0 (errors_New "not a valid logrus Level") _ _).
  - discriminate.
  - reflexivity.
Defined.
